(** * pycbc.waveform.waveform_modes: mode-by-mode waveform generation

    A shallow embedding of [pycbc/waveform/waveform_modes.py] and the
    properties of its mode dispatch and recombination engine.

    Conventions of the embedding:
    - Python floats and complex numbers are idealised as exact rationals
      ([Qc]) and pairs of them; no rounding is modelled.
    - A Python exception is a class name with its arguments ([exn]);
      a call that may raise returns a [result].
    - The external collaborators (the [lalsimulation] solvers, the [lal]
      harmonic evaluator, and the helpers imported from sibling modules) are
      the fields of one record, [Externals]; every solver invocation is
      recorded in a trace. The functions of [lalsimulation] that the module
      calls are assumed to exist. *)

From Stdlib Require Import ZArith QArith Qcanon String List Lia.
From stdpp Require Import gmap strings list fin_maps.
Import ListNotations.

Local Open Scope Z_scope.
Local Open Scope string_scope.
Local Open Scope list_scope.

(** ** Python exceptions and fallible results *)

Record exn := Exn { exn_class : string; exn_args : list string }.

Definition ValueError (msg : string) : exn := Exn "ValueError" [msg].
Definition KeyError (key : string) : exn := Exn "KeyError" [key].
Definition TypeError (msg : string) : exn := Exn "TypeError" [msg].
Definition AttributeError (attr : string) : exn := Exn "AttributeError" [attr].

Inductive result (A : Type) : Type :=
| Ok (a : A)
| Err (e : exn).
Arguments Ok {A} a.
Arguments Err {A} e.

(** ** Mode indices *)

Definition mode : Type := (Z * Z)%type.

(** Python's [range(lo, hi)] on integers. *)
Definition py_range (lo hi : Z) : list Z :=
  map (fun k => lo + Z.of_nat k) (seq 0 (Z.to_nat (hi - lo))).

(** Python's [x in xs] for a list of strings. *)
Definition str_in (x : string) (xs : list string) : bool :=
  existsb (String.eqb x) xs.

(** Python's [s.startswith(p)]. *)
Definition startswith (s p : string) : bool := String.prefix p s.

(** ** [default_modes] *)

Definition default_modes (approximant : string) : result (list mode) :=
  if str_in approximant ["IMRPhenomXPHM"; "IMRPhenomXHM"] then
    let ma := [(2, 2); (2, 1); (3, 3); (3, 2); (4, 4)] in
    Ok (ma ++ map (fun '(l, m) => (l, - m)) ma)
  else if str_in approximant ["IMRPhenomPv3HM"; "IMRPhenomHM"] then
    let ma := [(2, 2); (2, 1); (3, 3); (3, 2); (4, 4); (4, 3)] in
    Ok (ma ++ map (fun '(l, m) => (l, - m)) ma)
  else if startswith approximant "NRSur7dq4" then
    Ok (flat_map (fun l => map (fun m => (l, m)) (py_range (- l) (l + 1)))
                 [2; 3; 4])
  else if startswith approximant "NRHybSur3dq8" then
    Ok [(2, 0); (2, 1); (2, 2); (3, 0); (3, 1); (3, 2);
        (3, 3); (4, 2); (4, 3); (4, 4); (5, 5)]
  else
    Err (ValueError ("I don't know what the default modes are for "
                     ++ "approximant " ++ approximant ++ ", sorry!")).

(** ** Numbers, complex samples and series containers *)

Local Open Scope Qc_scope.

(** A complex number, as (real part, imaginary part). *)
Definition C : Type := (Qc * Qc)%type.

Definition C0 : C := (0, 0).
Definition Cre (z : C) : Qc := fst z.
Definition Cim (z : C) : Qc := snd z.
Definition Cadd (x y : C) : C := (fst x + fst y, snd x + snd y).
Definition Cmul (x y : C) : C :=
  (fst x * fst y - snd x * snd y, fst x * snd y + snd x * fst y).
Definition Copp (x : C) : C := (- fst x, - snd x).

(** The Python literals [0.5], [0.5j] and [-1] as they enter complex
    arithmetic. *)
Definition half : C := (Q2Qc (1 # 2), 0).
Definition half_j : C := (0, Q2Qc (1 # 2)).
Definition minus_one : C := (- (1), 0).

(** Modelled from the spec: the [TimeSeries] / [FrequencySeries] containers of
    [pycbc.types] (not part of this file): an ordered sequence of samples
    with a fixed spacing and a start. *)
Record series (A : Type) : Type := Series {
  data : list A;
  delta : Qc;
  epoch : Qc
}.
Arguments Series {A} data delta epoch.
Arguments data {A} s.
Arguments delta {A} s.
Arguments epoch {A} s.

Definition TimeSeries (d : list C) (delta_t epoch : Qc) : series C :=
  Series d delta_t epoch.
Definition FrequencySeries (d : list C) (delta_f epoch : Qc) : series C :=
  Series d delta_f epoch.

(** [s.real()] and [s.imag()]. *)
Definition real (s : series C) : series Qc :=
  Series (map Cre (data s)) (delta s) (epoch s).
Definition imag (s : series C) : series Qc :=
  Series (map Cim (data s)) (delta s) (epoch s).

(** [c * s] for a scalar [c]: sample-wise. *)
Definition smul (c : C) (s : series C) : series C :=
  Series (map (Cmul c) (data s)) (delta s) (epoch s).

(** ** Parameter values and parameter sets *)

Inductive value : Type :=
| VNum (q : Qc)
| VStr (s : string)
| VModes (ma : list mode)
| VNone.

Abbreviation params := (gmap string value).

(** [params[key]]. *)
Definition getitem (p : params) (key : string) : result value :=
  match p !! key with
  | Some v => Ok v
  | None => Err (KeyError key)
  end.

(** ** The two monads: fallible code, and fallible code observed by a trace *)

Definition rbind {A B} (r : result A) (f : A -> result B) : result B :=
  match r with
  | Ok a => f a
  | Err e => Err e
  end.

Declare Scope result_scope.
Delimit Scope result_scope with result.
Notation "'let*' x ':=' c1 'in' c2" := (rbind c1 (fun x => c2))
  (at level 10, x name, c1 at level 100, c2 at level 200) : result_scope.

Inductive solver_fn : Type :=
| SimInspiralPrecessingNRSurModes
| SimIMRNRHybSur3dq8Modes
| SimInspiralChooseTDModes
| SimIMRPhenomXHMGenerateFDOneMode.

Section Model.

(** The opaque dictionary object built by [_check_lal_pars]. *)
Variable LALDict : Type.

(** A positional argument of a solver call. *)
Inductive arg : Type :=
| AVal (v : value)
| AInt (z : Z)
| ADict (d : LALDict).

(** What an observer of a run sees: the dispatcher handing the parameters to
    the adapter registered under a name, and each call of an external
    solver with its arguments. *)
Inductive event : Type :=
| CallAdapter (key : string)
| CallSolver (fn : solver_fn) (args : list arg).

Definition trace : Type := list event.

Definition M (A : Type) : Type := trace -> result A * trace.

Definition mret {A} (a : A) : M A := fun t => (Ok a, t).
Definition mraise {A} (e : exn) : M A := fun t => (Err e, t).
Definition mbind {A B} (m : M A) (f : A -> M B) : M B :=
  fun t => match m t with
           | (Ok a, t') => f a t'
           | (Err e, t') => (Err e, t')
           end.
Definition lift {A} (r : result A) : M A := fun t => (r, t).
Definition emit (ev : event) : M unit := fun t => (Ok tt, t ++ [ev]).

(** Run a computation from the empty trace. *)
Definition run {A} (m : M A) : result A * trace := m [].

End Model.

Arguments AVal {LALDict} v.
Arguments AInt {LALDict} z.
Arguments ADict {LALDict} d.
Arguments CallAdapter {LALDict} key.
Arguments CallSolver {LALDict} fn args.
Arguments mret {LALDict A} a.
Arguments mraise {LALDict A} e.
Arguments mbind {LALDict A B} m f.
Arguments lift {LALDict A} r.
Arguments emit {LALDict} ev.
Arguments run {LALDict A} m.

Declare Scope m_scope.
Delimit Scope m_scope with M.
Notation "'let*' x ':=' c1 'in' c2" := (mbind c1 (fun x => c2))
  (at level 10, x name, c1 at level 100, c2 at level 200) : m_scope.

(** ** The external collaborators *)

(** One record of the linked sequence a packed multi-mode solver returns. *)
Record sph_node : Type := SphNode {
  node_l : Z;
  node_m : Z;
  node_mode : series C
}.

Record Externals (Template LALDict : Type) : Type := {
  (** [lal.MSUN_SI] and [lal.PC_SI]. *)
  MSUN_SI : Qc;
  PC_SI : Qc;
  (** [lal.SpinWeightedSphericalHarmonic(theta, phi, s, l, m)]. *)
  SpinWeightedSphericalHarmonic : Qc -> Qc -> Z -> Z -> Z -> result C;
  (** The attributes of the [lalsimulation] module that name approximants. *)
  ls_attr : string -> option Z;
  (** The packed multi-mode solvers and the one-mode solver. *)
  lalsim_modes : solver_fn -> list (arg LALDict) -> result (list sph_node);
  lalsim_one_mode : list (arg LALDict) -> result (series C);
  (** [props], [check_args] and [_check_lal_pars] of [pycbc.waveform.waveform]. *)
  props : option Template -> params -> params;
  check_args : params -> list string -> result unit;
  _check_lal_pars : params -> result LALDict;
  (** [parameters.td_required] and [parameters.fd_required], by name. *)
  td_required : list string;
  fd_required : list string;
  (** [pnutils.solar_mass_to_kg] and [pnutils.megaparsecs_to_meters]. *)
  solar_mass_to_kg : value -> result value;
  megaparsecs_to_meters : Qc -> result value;
  (** Python's [float] on a string, and [str] on a value that is neither a
      string nor [None]. *)
  float_of_str : string -> option Qc;
  py_str : value -> string
}.

Arguments MSUN_SI {Template LALDict} X : rename.
Arguments PC_SI {Template LALDict} X : rename.
Arguments SpinWeightedSphericalHarmonic {Template LALDict} X _ _ _ _ _ : rename.
Arguments ls_attr {Template LALDict} X _ : rename.
Arguments lalsim_modes {Template LALDict} X _ _ : rename.
Arguments lalsim_one_mode {Template LALDict} X _ : rename.
Arguments props {Template LALDict} X _ _ : rename.
Arguments check_args {Template LALDict} X _ _ : rename.
Arguments _check_lal_pars {Template LALDict} X _ : rename.
Arguments td_required {Template LALDict} X : rename.
Arguments fd_required {Template LALDict} X : rename.
Arguments solar_mass_to_kg {Template LALDict} X _ : rename.
Arguments megaparsecs_to_meters {Template LALDict} X _ : rename.
Arguments float_of_str {Template LALDict} X _ : rename.
Arguments py_str {Template LALDict} X _ : rename.

(** ** Python operations on parameter values *)

(** [v * c] for a float [c]. *)
Definition py_mul (v : value) (c : Qc) : result value :=
  match v with
  | VNum q => Ok (VNum (q * c))
  | _ => Err (TypeError "unsupported operand type(s) for *")
  end.

(** [approx.startswith(prefix)]. *)
Definition py_startswith (v : value) (p : string) : result bool :=
  match v with
  | VStr s => Ok (startswith s p)
  | _ => Err (AttributeError "startswith")
  end.

(** The items of [for (l, m) in v], each unpacked into a pair. *)
Definition iter_modes (v : value) : result (list mode) :=
  match v with
  | VModes ma => Ok ma
  | VStr "" => Ok []
  | VStr _ => Err (ValueError "not enough values to unpack")
  | _ => Err (TypeError "object is not iterable")
  end.

(** Python's [mapM]-like evaluation of a list of fallible items, in order. *)
Fixpoint sequence {A} (rs : list (result A)) : result (list A) :=
  match rs with
  | [] => Ok []
  | r :: rs' =>
      (let* a := r in
       let* l := sequence rs' in
       Ok (a :: l))%result
  end.

(** Lookup in a dict literal given as its items. *)
Fixpoint assoc {A} (key : string) (items : list (string * A)) : option A :=
  match items with
  | [] => None
  | (k, a) :: rest => if String.eqb key k then Some a else assoc key rest
  end.

(** The mode dictionaries the adapters return: mode index to a pair of
    series. *)
Abbreviation td_modes := (gmap mode (series Qc * series Qc)).
Abbreviation fd_modes := (gmap mode (series C * series C)).

Section Engine.

Context {Template LALDict : Type}.
Variable X : Externals Template LALDict.

Local Open Scope Z_scope.

(** [float(v)]. *)
Definition py_float (v : value) : result Qc :=
  match v with
  | VNum q => Ok q
  | VStr s =>
      match float_of_str X s with
      | Some q => Ok q
      | None => Err (ValueError "could not convert string to float")
      end
  | _ => Err (TypeError "float() argument must be a string or a number")
  end.

(** [getattr(lalsimulation, name)]. *)
Definition ls_getattr (name : value) : result Z :=
  match name with
  | VStr s =>
      match ls_attr X s with
      | Some z => Ok z
      | None => Err (AttributeError s)
      end
  | _ => Err (TypeError "attribute name must be string")
  end.

(** [str.format] of one value. *)
Definition format_value (v : value) : string :=
  match v with
  | VStr s => s
  | VNone => "None"
  | _ => py_str X v
  end.

(** *** [sum_modes]

    The mode dictionary is given by its items in iteration order; the body
    of the loop reads [hlms[l, m]] back from it. *)

Fixpoint hlms_get {A} (key : mode) (hlms : list (mode * A)) : option A :=
  match hlms with
  | [] => None
  | (k, a) :: rest => if decide (k = key) then Some a else hlms_get key rest
  end.

Fixpoint sum_modes_loop (hlms : list (mode * C)) (keys : list mode)
    (inclination phi : Qc) (out : option C) : result (option C) :=
  match keys with
  | [] => Ok out
  | (l, m) :: rest =>
      (let* hlm :=
         match hlms_get (l, m) hlms with
         | Some h => Ok h
         | None => Err (KeyError "(l, m)")
         end in
       let* ylm := SpinWeightedSphericalHarmonic X inclination phi (-2) l m in
       sum_modes_loop hlms rest inclination phi
         (match out with
          | None => Some (Cmul ylm hlm)
          | Some o => Some (Cadd o (Cmul ylm hlm))
          end))%result
  end.

Definition sum_modes (hlms : list (mode * C)) (inclination phi : Qc)
    : result (option C) :=
  sum_modes_loop hlms (map fst hlms) inclination phi None.

(** The reading of the returned complex number given by the docstring: the
    real part is the plus polarization, the negative imaginary part the
    cross polarization. *)
Definition plus_of (out : C) : Qc := Cre out.
Definition cross_of (out : C) : Qc := (- Cim out)%Qc.

(** *** [get_glm] *)

Definition get_glm (l m : Z) (theta : Qc) : result Qc :=
  (let* y := SpinWeightedSphericalHarmonic X theta 0%Qc (-2) l m in
   Ok (Cre y))%result.

(** *** The packed multi-mode adapters *)

(** One solver call, seen by the trace. *)
Definition call_modes (fn : solver_fn) (args : list (arg LALDict))
    : M LALDict (list sph_node) :=
  (let* _ := emit (CallSolver fn args) in
   lift (lalsim_modes X fn args))%M.

Definition call_one_mode (args : list (arg LALDict))
    : M LALDict (series C) :=
  (let* _ := emit (CallSolver SimIMRPhenomXHMGenerateFDOneMode args) in
   lift (lalsim_one_mode X args))%M.

(** [while ret: ...; ret = ret.next]. *)
Fixpoint walk_modes (ret : list sph_node) (hlms : td_modes) : td_modes :=
  match ret with
  | [] => hlms
  | n :: next =>
      let hlm := TimeSeries (data (node_mode n)) (delta (node_mode n))
                            (epoch (node_mode n)) in
      walk_modes next (<[(node_l n, node_m n) := (real hlm, imag hlm)]> hlms)
  end.

(** [params[key] * c]. *)
Definition getitem_times (p : params) (key : string) (c : Qc) : result value :=
  (let* v := getitem p key in py_mul v c)%result.

(** [params['distance']*1e6*lal.PC_SI]. *)
Definition distance_si (p : params) : result value :=
  (let* v := getitem_times p "distance" (Q2Qc (1000000 # 1)) in
   py_mul v (PC_SI X))%result.

Definition nrsur_args (p : params) (laldict : LALDict)
    : result (list (arg LALDict)) :=
  (let* delta_t := getitem p "delta_t" in
   let* mass1 := getitem_times p "mass1" (MSUN_SI X) in
   let* mass2 := getitem_times p "mass2" (MSUN_SI X) in
   let* spin1x := getitem p "spin1x" in
   let* spin1y := getitem p "spin1y" in
   let* spin1z := getitem p "spin1z" in
   let* spin2x := getitem p "spin2x" in
   let* spin2y := getitem p "spin2y" in
   let* spin2z := getitem p "spin2z" in
   let* f_lower := getitem p "f_lower" in
   let* f_ref := getitem p "f_ref" in
   let* distance := distance_si p in
   let* name := getitem p "approximant" in
   let* approx := ls_getattr name in
   Ok [AVal delta_t; AVal mass1; AVal mass2;
       AVal spin1x; AVal spin1y; AVal spin1z;
       AVal spin2x; AVal spin2y; AVal spin2z;
       AVal f_lower; AVal f_ref; AVal distance; ADict laldict;
       AInt approx])%result.

Definition get_nrsur_modes (p : params) : M LALDict td_modes :=
  (let* laldict := lift (_check_lal_pars X p) in
   let* args := lift (nrsur_args p laldict) in
   let* ret := call_modes SimInspiralPrecessingNRSurModes args in
   mret (walk_modes ret ∅))%M.

Definition nrhybsur_args (p : params) (laldict : LALDict)
    : result (list (arg LALDict)) :=
  (let* delta_t := getitem p "delta_t" in
   let* mass1 := getitem_times p "mass1" (MSUN_SI X) in
   let* mass2 := getitem_times p "mass2" (MSUN_SI X) in
   let* spin1z := getitem p "spin1z" in
   let* spin2z := getitem p "spin2z" in
   let* f_lower := getitem p "f_lower" in
   let* f_ref := getitem p "f_ref" in
   let* distance := distance_si p in
   Ok [AVal delta_t; AVal mass1; AVal mass2; AVal spin1z; AVal spin2z;
       AVal f_lower; AVal f_ref; AVal distance; ADict laldict])%result.

Definition get_nrhybsur_modes (p : params) : M LALDict td_modes :=
  (let* laldict := lift (_check_lal_pars X p) in
   let* args := lift (nrhybsur_args p laldict) in
   let* ret := call_modes SimIMRNRHybSur3dq8Modes args in
   mret (walk_modes ret ∅))%M.

(** The names of the dict literal of [get_lalsimulation_approximant], in
    order; each is bound to the [lalsimulation] attribute of the same name. *)
Definition lalsimulation_approximant_names : list string :=
  ["EOBNRv2"; "EOBNRv2HM"; "IMRPhenomTPHM"; "NRSur7dq2"; "NRSur7dq4";
   "NRHybSur3dq8"; "pSEOBNRv4HM_PA"; "SEOBNRv4HM_PA"; "SEOBNRv4P";
   "SEOBNRv4PHM"; "SpinTaylorT1"; "SpinTaylorT4"; "SpinTaylorT5";
   "TaylorT1"; "TaylorT2"; "TaylorT3"; "TaylorT4"].

Definition get_lalsimulation_approximant (approximant : value) : result Z :=
  (let* table :=
     sequence (map (fun name =>
                      let* z := ls_getattr (VStr name) in Ok (name, z))
                   lalsimulation_approximant_names) in
   match approximant with
   | VStr s =>
       match assoc s table with
       | Some z => Ok z
       | None => Err (KeyError s)
       end
   | VModes _ => Err (TypeError "unhashable type: 'list'")
   | v => Err (KeyError (format_value v))
   end)%result.

Definition lalsimulation_args (p : params) (ell_max : value)
    (laldict : LALDict) : result (list (arg LALDict)) :=
  (let* coa_phase := getitem p "coa_phase" in
   let* delta_t := getitem p "delta_t" in
   let* mass1 := getitem_times p "mass1" (MSUN_SI X) in
   let* mass2 := getitem_times p "mass2" (MSUN_SI X) in
   let* spin1x := getitem p "spin1x" in
   let* spin1y := getitem p "spin1y" in
   let* spin1z := getitem p "spin1z" in
   let* spin2x := getitem p "spin2x" in
   let* spin2y := getitem p "spin2y" in
   let* spin2z := getitem p "spin2z" in
   let* f_lower := getitem p "f_lower" in
   let* f_ref := getitem p "f_ref" in
   let* distance := distance_si p in
   let* name := getitem p "approximant" in
   let* approx := get_lalsimulation_approximant name in
   Ok [AVal coa_phase; AVal delta_t; AVal mass1; AVal mass2;
       AVal spin1x; AVal spin1y; AVal spin1z;
       AVal spin2x; AVal spin2y; AVal spin2z;
       AVal f_lower; AVal f_ref; AVal distance; ADict laldict;
       AVal ell_max; AInt approx])%result.

Definition get_lalsimulation_modes (p : params) : M LALDict td_modes :=
  let ell_max :=
    match p !! "ell_max" with
    | Some v => v
    | None => VNum (Q2Qc (5 # 1))
    end in
  (let* laldict := lift (_check_lal_pars X p) in
   let* args := lift (lalsimulation_args p ell_max laldict) in
   let* ret := call_modes SimInspiralChooseTDModes args in
   mret (walk_modes ret ∅))%M.

(** *** The per-mode-call adapter *)

Definition imrphenomxh_args (p : params) (l m : Z) (laldict : LALDict)
    : result (list (arg LALDict)) :=
  (let* mass1 := (let* v := getitem p "mass1" in
                  let* kg := solar_mass_to_kg X v in py_float kg) in
   let* mass2 := (let* v := getitem p "mass2" in
                  let* kg := solar_mass_to_kg X v in py_float kg) in
   let* spin1z := (let* v := getitem p "spin1z" in py_float v) in
   let* spin2z := (let* v := getitem p "spin2z" in py_float v) in
   let* distance := (let* v := getitem p "distance" in
                     let* d := py_float v in megaparsecs_to_meters X d) in
   let* f_lower := getitem p "f_lower" in
   let* f_final := getitem p "f_final" in
   let* delta_f := getitem p "delta_f" in
   let* coa_phase := getitem p "coa_phase" in
   let* f_ref := getitem p "f_ref" in
   Ok [AVal (VNum mass1); AVal (VNum mass2);
       AVal (VNum spin1z); AVal (VNum spin2z); AInt l; AInt m;
       AVal distance; AVal f_lower; AVal f_final; AVal delta_f;
       AVal coa_phase; AVal f_ref; ADict laldict])%result.

(** The plus and cross strains stored for a mode [(l, m)] whose solver
    output is [hlm]. *)
Definition imrphenomxh_strains (m : Z) (hlm : series C)
    : series C * series C :=
  let hplm := smul half hlm in
  let hclm := smul half_j hlm in
  let hclm := if 0 <? m then smul minus_one hclm else hclm in
  (hplm, hclm).

(** The body of [for (l, m) in mode_array], with the parameter set and the
    result dictionary it updates. *)
Fixpoint imrphenomxh_loop (p : params) (mode_array : list mode)
    (hlms : fd_modes) : M LALDict fd_modes :=
  match mode_array with
  | [] => mret hlms
  | (l, m) :: rest =>
      let p := <["mode_array" := VModes [(l, m)]]> p in
      (let* laldict := lift (_check_lal_pars X p) in
       let* args := lift (imrphenomxh_args p l m laldict) in
       let* hlm := call_one_mode args in
       let hlm := FrequencySeries (data hlm) (delta hlm) (epoch hlm) in
       imrphenomxh_loop p rest (<[(l, m) := imrphenomxh_strains m hlm]> hlms))%M
  end.

(** The parameter set as the loop first sees it: [mode_array] popped and
    [f_final] defaulted to zero. *)
Definition imrphenomxh_params (p : params) : params :=
  let p := delete "mode_array" p in
  match p !! "f_final" with
  | Some _ => p
  | None => <["f_final" := VNum 0%Qc]> p
  end.

(** [default_modes] on a parameter value: a value that is not a string
    fails both membership tests and then has no [startswith]. *)
Definition default_modes_of (approx : value) : result (list mode) :=
  match approx with
  | VStr name => default_modes name
  | _ => Err (AttributeError "startswith")
  end.

(** The mode list the loop runs over: the popped [mode_array], or the
    default modes of the approximant when it is absent or [None]. *)
Definition imrphenomxh_mode_array (p : params) (approx : value)
    : result (list mode) :=
  match p !! "mode_array" with
  | None | Some VNone => default_modes_of approx
  | Some v => iter_modes v
  end.

Definition get_imrphenomxh_modes (p : params) : M LALDict fd_modes :=
  (let* approx := lift (getitem p "approximant") in
   let* ok := lift (py_startswith approx "IMRPhenomX") in
   if negb ok then mraise (ValueError "unsupported approximant")
   else
     let* mode_array := lift (imrphenomxh_mode_array p approx) in
     imrphenomxh_loop (imrphenomxh_params p) mode_array ∅)%M.

(** *** The registries and the two entry points *)

Definition _mode_waveform_td : gmap string (params -> M LALDict td_modes) :=
  list_to_map
    [("EOBNRv2", get_lalsimulation_modes);
     ("EOBNRv2HM", get_lalsimulation_modes);
     ("IMRPhenomTPHM", get_lalsimulation_modes);
     ("NRSur7dq2", get_lalsimulation_modes);
     ("NRSur7dq4", get_nrsur_modes);
     ("NRHybSur3dq8", get_nrhybsur_modes);
     ("pSEOBNRv4HM_PA", get_lalsimulation_modes);
     ("SEOBNRv4HM_PA", get_lalsimulation_modes);
     ("SEOBNRv4P", get_lalsimulation_modes);
     ("SEOBNRv4PHM", get_lalsimulation_modes);
     ("SpinTaylorT1", get_lalsimulation_modes);
     ("SpinTaylorT4", get_lalsimulation_modes);
     ("SpinTaylorT5", get_lalsimulation_modes);
     ("TaylorT1", get_lalsimulation_modes);
     ("TaylorT2", get_lalsimulation_modes);
     ("TaylorT3", get_lalsimulation_modes);
     ("TaylorT4", get_lalsimulation_modes)].

Definition _mode_waveform_fd : gmap string (params -> M LALDict fd_modes) :=
  list_to_map [("IMRPhenomXHM", get_imrphenomxh_modes)].

(** The membership test [apprx not in registry] and the call of
    [registry[apprx]] on the parameters, for a registry keyed by strings: a
    value that is not a string is in no registry, and a list cannot be
    looked up at all. *)
Definition dispatch {A} (registry : gmap string (params -> M LALDict A))
    (apprx : value) (p : params) : M LALDict A :=
  let unsupported :=
    mraise (ValueError ("I don't support approximant "
                        ++ format_value apprx ++ ", sorry")) in
  match apprx with
  | VModes _ => mraise (TypeError "unhashable type: 'list'")
  | VStr name =>
      match registry !! name with
      | None => unsupported
      | Some adapter =>
          (let* _ := emit (CallAdapter name) in adapter p)%M
      end
  | _ => unsupported
  end.

Definition get_fd_waveform_modes (template : option Template)
    (kwargs : params) : M LALDict fd_modes :=
  let p := props X template kwargs in
  let required := fd_required X in
  (let* _ := lift (check_args X p required) in
   let* apprx := lift (getitem p "approximant") in
   dispatch _mode_waveform_fd apprx p)%M.

Definition get_td_waveform_modes (template : option Template)
    (kwargs : params) : M LALDict td_modes :=
  let p := props X template kwargs in
  let required := td_required X in
  (let* _ := lift (check_args X p required) in
   let* apprx := lift (getitem p "approximant") in
   dispatch _mode_waveform_td apprx p)%M.

End Engine.

(** Modelled from the spec: the required-parameter checker [check_args] of
    [pycbc.waveform.waveform] (not part of this file). Given a parameter
    mapping and a list of required names it raises if any are missing, with
    a [MissingParameter] error naming the missing keys. *)
Definition missing_keys (p : params) (required : list string) : list string :=
  List.filter (fun k => negb (bool_decide (is_Some (p !! k)))) required.

Definition MissingParameter (keys : list string) : exn :=
  Exn "MissingParameter" keys.

Definition check_args_spec (p : params) (required : list string)
    : result unit :=
  match missing_keys p required with
  | [] => Ok tt
  | missing => Err (MissingParameter missing)
  end.

(** ** Definitions used to state the properties *)

(** The modes of the NRSur7dq4 table: every (l, m) with l from 2 to 4 and m
    from -l to l. *)
Definition full_range_modes : list mode :=
  [(2, -2); (2, -1); (2, 0); (2, 1); (2, 2);
   (3, -3); (3, -2); (3, -1); (3, 0); (3, 1); (3, 2); (3, 3);
   (4, -4); (4, -3); (4, -2); (4, -1); (4, 0); (4, 1); (4, 2); (4, 3);
   (4, 4)]%Z.

(** The sum over the modes of a dictionary of harmonic times mode, for
    harmonic values [y]. *)
Definition mode_sum (y : mode -> C) (hlms : list (mode * C)) : C :=
  fold_right (fun '(k, h) acc => Cadd (Cmul (y k) h) acc) C0 hlms.

Section Statements.

Context {Template LALDict : Type}.
Variable X : Externals Template LALDict.

(** The frequency series the external solver returns for the mode [(l, m)]
    when the per-mode-call adapter runs on the parameters [p]. *)
Definition imrphenomxh_solver_output (p : params) (l m : Z)
    : result (series C) :=
  let q := <["mode_array" := VModes [(l, m)]]> (imrphenomxh_params p) in
  (let* laldict := _check_lal_pars X q in
   let* args := imrphenomxh_args X q l m laldict in
   lalsim_one_mode X args)%result.

(** Every entry of a result dictionary holds the strains made from the
    solver output for its mode. *)
Definition derived (p : params) (hlms : fd_modes) : Prop :=
  forall l m s, hlms !! (l, m) = Some s ->
    exists h, imrphenomxh_solver_output p l m = Ok h /\
              s = imrphenomxh_strains m h.

(** The solver named [fn] raises [e] on the arguments [args]. *)
Definition solver_raises (fn : solver_fn) (args : list (arg LALDict))
    (e : exn) : Prop :=
  match fn with
  | SimIMRPhenomXHMGenerateFDOneMode => lalsim_one_mode X args = Err e
  | _ => lalsim_modes X fn args = Err e
  end.

(** A computation hands a solver failure to its caller unchanged: whenever a
    solver call it made raised [e], its own result is the error [e]. The
    first form starts from any trace, the second from the empty one. *)
Definition propagates_from {A} (m : M LALDict A) : Prop :=
  forall t0 r t, m t0 = (r, t) ->
    exists t1, t = t0 ++ t1 /\
      forall fn args e,
        In (CallSolver fn args) t1 -> solver_raises fn args e -> r = Err e.

Definition failure_unchanged {A} (m : M LALDict A) : Prop :=
  forall r t fn args e,
    run m = (r, t) ->
    In (CallSolver fn args) t -> solver_raises fn args e -> r = Err e.

End Statements.

(** The error a caller sees for a name that is in no registry. *)
Definition UnsupportedModel (name : string) : exn :=
  ValueError ("I don't support approximant " ++ name ++ ", sorry").

(** ** A stub environment, for running the engine on concrete inputs *)

Definition stub_series : series C :=
  Series [(1%Qc, 0%Qc); (0%Qc, 1%Qc)] 1%Qc 0%Qc.

(** Modelled from the spec: the required-name lists [parameters.td_required]
    and [parameters.fd_required] (not part of this file): the time step, the
    two component masses, the lower and the reference frequency, the
    distance and the approximant name; the frequency domain requires
    additionally a frequency step and the coalescence phase. *)
Definition td_required_spec : list string :=
  ["delta_t"; "mass1"; "mass2"; "f_lower"; "f_ref"; "distance";
   "approximant"].
Definition fd_required_spec : list string :=
  td_required_spec ++ ["delta_f"; "coa_phase"].

Definition stub_with
    (modes : solver_fn -> list (arg unit) -> result (list sph_node))
    (one_mode : list (arg unit) -> result (series C))
    : Externals unit unit :=
  {| MSUN_SI := Q2Qc (2 # 1);
     PC_SI := Q2Qc (3 # 1);
     SpinWeightedSphericalHarmonic := fun _ _ _ _ _ => Ok (1%Qc, 0%Qc);
     ls_attr := fun s =>
       if str_in s lalsimulation_approximant_names then Some 0%Z else None;
     lalsim_modes := modes;
     lalsim_one_mode := one_mode;
     props := fun _ kwargs => kwargs;
     check_args := check_args_spec;
     _check_lal_pars := fun _ => Ok tt;
     td_required := td_required_spec;
     fd_required := fd_required_spec;
     solar_mass_to_kg := fun v => py_mul v (Q2Qc (2 # 1));
     megaparsecs_to_meters := fun d => Ok (VNum (d * Q2Qc (3000000 # 1)));
     float_of_str := fun _ => None;
     py_str := fun _ => "" |}.

(** Solvers that answer every call with one (2, 2) mode. *)
Definition stub : Externals unit unit :=
  stub_with (fun _ _ => Ok [SphNode 2 2 stub_series])
            (fun _ => Ok stub_series).

(** Solvers that fail every call with a native error. *)
Definition native_failure : exn :=
  Exn "RuntimeError" ["Internal function call failed"].

Definition failing_stub : Externals unit unit :=
  stub_with (fun _ _ => Err native_failure) (fun _ => Err native_failure).

(** A complete parameter set, and the same with an unregistered name. *)
Definition sample_params (approximant : string) : params :=
  list_to_map
    [("approximant", VStr approximant);
     ("delta_t", VNum (Q2Qc (1 # 4096)));
     ("delta_f", VNum (Q2Qc (1 # 4)));
     ("mass1", VNum (Q2Qc (30 # 1)));
     ("mass2", VNum (Q2Qc (20 # 1)));
     ("spin1x", VNum 0%Qc); ("spin1y", VNum 0%Qc); ("spin1z", VNum 0%Qc);
     ("spin2x", VNum 0%Qc); ("spin2y", VNum 0%Qc); ("spin2z", VNum 0%Qc);
     ("f_lower", VNum (Q2Qc (20 # 1)));
     ("f_ref", VNum (Q2Qc (20 # 1)));
     ("distance", VNum (Q2Qc (100 # 1)));
     ("coa_phase", VNum 0%Qc)].

(** * Properties *)

(** ** The default mode sets *)

Lemma startswith_cons (c d : Ascii.ascii) (s p : string) :
  startswith (String c s) (String d p) = true -> d = c /\ startswith s p = true.
Proof.
  unfold startswith. simpl.
  destruct (Ascii.ascii_dec d c) as [->|]; [auto | discriminate].
Qed.

Lemma startswith_nil (c : Ascii.ascii) (p : string) :
  startswith EmptyString (String c p) = false.
Proof. reflexivity. Qed.

(** The first characters of a string that starts with a given literal. *)
Ltac peel_prefix H :=
  repeat match type of H with
         | startswith ?a (String _ _) = true =>
             destruct a;
             [ rewrite startswith_nil in H; discriminate H
             | let E := fresh "E" in
               apply startswith_cons in H; destruct H as [E H]; subst ]
         end.

Lemma full_range_modes_spec (l m : Z) :
  In (l, m) full_range_modes <->
  ((l = 2 \/ l = 3 \/ l = 4) /\ - l <= m <= l)%Z.
Proof.
  unfold full_range_modes. simpl. split.
  - intros H.
    repeat (destruct H as [H | H]; [inversion H; subst; lia |]).
    destruct H.
  - intros [Hl Hm].
    assert (Hc : (m = -4 \/ m = -3 \/ m = -2 \/ m = -1 \/ m = 0 \/ m = 1
                  \/ m = 2 \/ m = 3 \/ m = 4)%Z) by lia.
    destruct Hl as [-> | [-> | ->]];
      repeat (destruct Hc as [-> | Hc]; [first [lia | tauto] |]);
      subst; first [lia | tauto].
Qed.

(** C1. For every approximant name, [default_modes] returns the literature
    table of its family: the five base pairs followed by their negated-m
    copies for IMRPhenomXPHM and IMRPhenomXHM, the six base pairs followed by
    their negated-m copies for IMRPhenomPv3HM and IMRPhenomHM, every (l, m)
    with l in 2..4 and m from -l to l for a name starting with NRSur7dq4,
    the fixed eleven pairs for a name starting with NRHybSur3dq8, and for
    every other name it raises instead of returning a list. *)
Theorem default_modes_table (a : string) :
  ((a = "IMRPhenomXPHM" \/ a = "IMRPhenomXHM") ->
   default_modes a =
   Ok ([(2, 2); (2, 1); (3, 3); (3, 2); (4, 4)]
       ++ [(2, -2); (2, -1); (3, -3); (3, -2); (4, -4)])%Z) /\
  ((a = "IMRPhenomPv3HM" \/ a = "IMRPhenomHM") ->
   default_modes a =
   Ok ([(2, 2); (2, 1); (3, 3); (3, 2); (4, 4); (4, 3)]
       ++ [(2, -2); (2, -1); (3, -3); (3, -2); (4, -4); (4, -3)])%Z) /\
  (startswith a "NRSur7dq4" = true ->
   default_modes a = Ok full_range_modes /\
   forall l m, In (l, m) full_range_modes <->
               ((l = 2 \/ l = 3 \/ l = 4) /\ - l <= m <= l)%Z) /\
  (startswith a "NRHybSur3dq8" = true ->
   default_modes a =
   Ok [(2, 0); (2, 1); (2, 2); (3, 0); (3, 1); (3, 2);
       (3, 3); (4, 2); (4, 3); (4, 4); (5, 5)]%Z) /\
  (~ In a ["IMRPhenomXPHM"; "IMRPhenomXHM"; "IMRPhenomPv3HM"; "IMRPhenomHM"] ->
   startswith a "NRSur7dq4" = false ->
   startswith a "NRHybSur3dq8" = false ->
   exists e, default_modes a = Err e /\ exn_class e = "ValueError").
Proof.
  split; [| split; [| split; [| split]]].
  - intros [-> | ->]; reflexivity.
  - intros [-> | ->]; reflexivity.
  - intros H. split; [| apply full_range_modes_spec]. peel_prefix H.
    match goal with s : string |- _ => destruct s end; vm_compute; reflexivity.
  - intros H. peel_prefix H.
    match goal with s : string |- _ => destruct s end; vm_compute; reflexivity.
  - intros Hn H1 H2. unfold default_modes.
    assert (E1 : str_in a ["IMRPhenomXPHM"; "IMRPhenomXHM"] = false).
    { unfold str_in. simpl.
      destruct (String.eqb_spec a "IMRPhenomXPHM");
        [exfalso; apply Hn; simpl; auto |].
      destruct (String.eqb_spec a "IMRPhenomXHM");
        [exfalso; apply Hn; simpl; auto |]. reflexivity. }
    assert (E2 : str_in a ["IMRPhenomPv3HM"; "IMRPhenomHM"] = false).
    { unfold str_in. simpl.
      destruct (String.eqb_spec a "IMRPhenomPv3HM");
        [exfalso; apply Hn; simpl; auto |].
      destruct (String.eqb_spec a "IMRPhenomHM");
        [exfalso; apply Hn; simpl; auto |]. reflexivity. }
    rewrite E1, E2, H1, H2. eexists. split; reflexivity.
Qed.

Lemma default_modes_table_witness :
  default_modes "IMRPhenomXHM" =
    Ok [(2, 2); (2, 1); (3, 3); (3, 2); (4, 4);
        (2, -2); (2, -1); (3, -3); (3, -2); (4, -4)]%Z /\
  default_modes "IMRPhenomHM" =
    Ok [(2, 2); (2, 1); (3, 3); (3, 2); (4, 4); (4, 3);
        (2, -2); (2, -1); (3, -3); (3, -2); (4, -4); (4, -3)]%Z /\
  (default_modes "NRSur7dq4" = Ok full_range_modes /\
   forall l m, In (l, m) full_range_modes <->
               ((l = 2 \/ l = 3 \/ l = 4) /\ - l <= m <= l)%Z) /\
  default_modes "NRHybSur3dq8_CCE" =
    Ok [(2, 0); (2, 1); (2, 2); (3, 0); (3, 1); (3, 2);
        (3, 3); (4, 2); (4, 3); (4, 4); (5, 5)]%Z /\
  (exists e, default_modes "NotAModel" = Err e /\ exn_class e = "ValueError").
Proof.
  split; [| split; [| split; [| split]]].
  - apply (proj1 (default_modes_table "IMRPhenomXHM")). right. reflexivity.
  - apply (proj1 (proj2 (default_modes_table "IMRPhenomHM"))).
    right. reflexivity.
  - apply (proj1 (proj2 (proj2 (default_modes_table "NRSur7dq4")))).
    reflexivity.
  - apply (proj1 (proj2 (proj2 (proj2 (default_modes_table "NRHybSur3dq8_CCE"))))).
    reflexivity.
  - apply (proj2 (proj2 (proj2 (proj2 (default_modes_table "NotAModel"))))).
    + simpl. intros [H | [H | [H | [H | []]]]]; discriminate H.
    + reflexivity.
    + reflexivity.
Defined.

(** ** Recombination of modes *)

Section Recombiner.

Context {Template LALDict : Type}.
Variable X : Externals Template LALDict.

Lemma Cadd_assoc (a b c : C) : Cadd (Cadd a b) c = Cadd a (Cadd b c).
Proof. unfold Cadd. simpl. f_equal; ring. Qed.

Lemma Cadd_0_r (a : C) : Cadd a C0 = a.
Proof. destruct a. unfold Cadd, C0. simpl. f_equal; ring. Qed.

(** Reading a key of the dictionary back gives the value stored with it. *)
Lemma hlms_get_in {A} (hlms : list (mode * A)) (k : mode) (h : A) :
  NoDup (map fst hlms) -> In (k, h) hlms -> hlms_get k hlms = Some h.
Proof.
  induction hlms as [| [k' h'] rest IH]; simpl; [tauto |].
  intros Hnd Hin. apply NoDup_cons in Hnd. destruct Hnd as [Hk Hnd].
  destruct (decide (k' = k)) as [-> |].
  - destruct Hin as [Heq | Hin]; [congruence |].
    exfalso. apply Hk. apply list_elem_of_In.
    apply (in_map fst) in Hin. exact Hin.
  - destruct Hin as [Heq | Hin]; [congruence | auto].
Qed.

(** The loop, once the accumulator holds a value, adds the remaining
    products to it. *)
Lemma sum_modes_loop_some (hlms rest : list (mode * C)) (incl phi : Qc)
    (y : mode -> C) (o : C) :
  (forall k h, In (k, h) rest -> hlms_get k hlms = Some h) ->
  (forall l m, In (l, m) (map fst rest) ->
     SpinWeightedSphericalHarmonic X incl phi (-2) l m = Ok (y (l, m))) ->
  sum_modes_loop X hlms (map fst rest) incl phi (Some o)
  = Ok (Some (Cadd o (mode_sum y rest))).
Proof.
  revert o. induction rest as [| [[l m] h] rest IH]; intros o Hget Hy; simpl.
  - now rewrite Cadd_0_r.
  - rewrite (Hget (l, m) h) by (left; reflexivity).
    rewrite (Hy l m) by (left; reflexivity). simpl.
    rewrite IH.
    + now rewrite Cadd_assoc.
    + intros k h' Hin. apply Hget. right. exact Hin.
    + intros l' m' Hin. apply Hy. right. exact Hin.
Qed.

(** C3, as the code has it. For every inclination and phase, recombining an
    empty mode mapping returns [None]: the accumulator is never given a
    value, and no zero is produced. *)
Theorem sum_modes_empty (inclination phi : Qc) :
  sum_modes X [] inclination phi = Ok None.
Proof. reflexivity. Qed.

(** C6. For every non-empty mode mapping and every inclination and phase at
    which the harmonics of its modes are defined, the recombiner returns the
    sum over all modes of harmonic times mode; the plus polarization read
    from it is the real part of that sum and the cross polarization the
    negative of its imaginary part. *)
Theorem sum_modes_total (hlms : list (mode * C)) (inclination phi : Qc)
    (y : mode -> C) :
  hlms <> [] ->
  NoDup (map fst hlms) ->
  (forall l m, In (l, m) (map fst hlms) ->
     SpinWeightedSphericalHarmonic X inclination phi (-2) l m
     = Ok (y (l, m))) ->
  exists out,
    sum_modes X hlms inclination phi = Ok (Some out) /\
    out = mode_sum y hlms /\
    plus_of out = Cre (mode_sum y hlms) /\
    cross_of out = (- Cim (mode_sum y hlms))%Qc.
Proof.
  intros Hne Hnd Hy.
  destruct hlms as [| [[l m] h] rest]; [congruence |].
  exists (mode_sum y (((l, m), h) :: rest)).
  split; [| repeat split].
  unfold sum_modes. simpl.
  rewrite decide_True by reflexivity.
  rewrite (Hy l m) by (left; reflexivity). simpl.
  apply sum_modes_loop_some.
  - intros k h' Hin.
    change (hlms_get k (((l, m), h) :: rest) = Some h').
    apply hlms_get_in; [exact Hnd | right; exact Hin].
  - intros l' m' Hin. apply Hy. right. exact Hin.
Qed.

End Recombiner.

(** At a concrete input the empty mapping gives [None], which is not a
    zero-valued result. *)
Lemma empty_mapping_is_not_zero :
  sum_modes stub [] 0%Qc 0%Qc = Ok None /\
  sum_modes stub [] 0%Qc 0%Qc <> Ok (Some C0).
Proof. split; [reflexivity | discriminate]. Qed.

Lemma sum_modes_total_witness :
  exists out,
    sum_modes stub [((2, 2)%Z, (1%Qc, 0%Qc)); ((2, -2)%Z, (0%Qc, 1%Qc))]
              0%Qc 0%Qc = Ok (Some out) /\
    out = mode_sum (fun _ => (1%Qc, 0%Qc))
            [((2, 2)%Z, (1%Qc, 0%Qc)); ((2, -2)%Z, (0%Qc, 1%Qc))] /\
    plus_of out =
      Cre (mode_sum (fun _ => (1%Qc, 0%Qc))
             [((2, 2)%Z, (1%Qc, 0%Qc)); ((2, -2)%Z, (0%Qc, 1%Qc))]) /\
    cross_of out =
      (- Cim (mode_sum (fun _ => (1%Qc, 0%Qc))
                [((2, 2)%Z, (1%Qc, 0%Qc)); ((2, -2)%Z, (0%Qc, 1%Qc))]))%Qc.
Proof.
  apply (sum_modes_total stub).
  - discriminate.
  - simpl. apply NoDup_cons. split; [| apply NoDup_singleton].
    intros H. apply list_elem_of_singleton in H. discriminate H.
  - intros l m _. reflexivity.
Defined.

(** ** The per-mode-call adapter *)

Section PerModeCall.

Context {Template LALDict : Type}.
Variable X : Externals Template LALDict.

Lemma Cmul_assoc (a b c : C) : Cmul a (Cmul b c) = Cmul (Cmul a b) c.
Proof. unfold Cmul. simpl. f_equal; ring. Qed.

Lemma smul_smul (a b : C) (s : series C) :
  smul a (smul b s) = smul (Cmul a b) s.
Proof.
  unfold smul. simpl. f_equal. rewrite map_map.
  apply map_ext. intros z. apply Cmul_assoc.
Qed.

Lemma minus_one_half_j : Cmul minus_one half_j = Copp half_j.
Proof. unfold Cmul, Copp, minus_one, half_j. simpl. f_equal; ring. Qed.

Lemma FrequencySeries_eta (h : series C) :
  FrequencySeries (data h) (delta h) (epoch h) = h.
Proof. destruct h. reflexivity. Qed.

(** The convention of the stored strains, in closed form. *)
Lemma imrphenomxh_strains_closed (m : Z) (h : series C) :
  imrphenomxh_strains m h
  = (smul half h, smul (if 0 <? m then Copp half_j else half_j) h)%Z.
Proof.
  unfold imrphenomxh_strains.
  destruct (0 <? m)%Z; [| reflexivity].
  now rewrite smul_smul, minus_one_half_j.
Qed.

(** The loop keeps every entry derived from the solver output of its mode,
    whatever parameter set it is entered with, as long as that set differs
    from the initial one in [mode_array] only. *)
Lemma imrphenomxh_loop_derived (p : params) (modes : list mode) :
  forall (q : params) (hlms hlms' : fd_modes) (t t' : trace LALDict),
    (forall v, <["mode_array" := v]> q
               = <["mode_array" := v]> (imrphenomxh_params p)) ->
    derived X p hlms ->
    imrphenomxh_loop X q modes hlms t = (Ok hlms', t') ->
    derived X p hlms'.
Proof.
  induction modes as [| [l m] rest IH]; intros q hlms hlms' t t' Hq Hd Hrun.
  - simpl in Hrun. unfold mret in Hrun. inversion Hrun; subst. exact Hd.
  - simpl in Hrun. unfold mbind, lift, call_one_mode, emit in Hrun.
    unfold mbind, lift in Hrun.
    destruct (_check_lal_pars X (<["mode_array" := VModes [(l, m)]]> q))
      as [laldict |] eqn:Elal; [| discriminate].
    destruct (imrphenomxh_args X (<["mode_array" := VModes [(l, m)]]> q)
                               l m laldict) as [args |] eqn:Eargs;
      [| discriminate].
    destruct (lalsim_one_mode X args) as [h |] eqn:Eh; [| discriminate].
    rewrite FrequencySeries_eta in Hrun.
    eapply IH; [| | exact Hrun].
    + intros v. rewrite insert_insert_eq. apply Hq.
    + intros l' m' s Hs.
      destruct (decide ((l, m) = (l', m'))) as [Heq | Hne].
      * inversion Heq; subst l' m'.
        rewrite lookup_insert_eq in Hs. inversion Hs; subst s.
        exists h. split; [| reflexivity].
        unfold imrphenomxh_solver_output.
        rewrite <- Hq, Elal. simpl. rewrite Eargs. simpl. exact Eh.
      * rewrite lookup_insert_ne in Hs by exact Hne. apply (Hd _ _ _ Hs).
Qed.

(** The loop adds exactly the modes it runs over to the dictionary. *)
Lemma imrphenomxh_loop_keys (modes : list mode) :
  forall (q : params) (hlms hlms' : fd_modes) (t t' : trace LALDict),
    imrphenomxh_loop X q modes hlms t = (Ok hlms', t') ->
    forall k, is_Some (hlms' !! k) <-> is_Some (hlms !! k) \/ In k modes.
Proof.
  induction modes as [| [l m] rest IH]; intros q hlms hlms' t t' Hrun k.
  - simpl in Hrun. unfold mret in Hrun. inversion Hrun; subst.
    simpl. tauto.
  - simpl in Hrun. unfold mbind, lift, call_one_mode, emit in Hrun.
    unfold mbind, lift in Hrun.
    destruct (_check_lal_pars X _) as [laldict |]; [| discriminate].
    destruct (imrphenomxh_args X _ l m laldict) as [args |]; [| discriminate].
    destruct (lalsim_one_mode X args) as [h |]; [| discriminate].
    rewrite (IH _ _ _ _ _ Hrun k), lookup_insert_is_Some. simpl.
    destruct (decide ((l, m) = k)); tauto.
Qed.

Lemma derived_empty (p : params) : derived X p ∅.
Proof. intros l m s Hs. rewrite lookup_empty in Hs. discriminate. Qed.

Lemma get_imrphenomxh_modes_derived (p : params) (hlms : fd_modes)
    (t : trace LALDict) :
  run (get_imrphenomxh_modes X p) = (Ok hlms, t) -> derived X p hlms.
Proof.
  unfold run, get_imrphenomxh_modes, mbind, lift, mraise. intros Hrun.
  destruct (getitem p "approximant") as [approx |]; [| discriminate].
  destruct (py_startswith approx "IMRPhenomX") as [[|] |];
    simpl in Hrun; [| discriminate | discriminate].
  destruct (imrphenomxh_mode_array p approx) as [modes |]; [| discriminate].
  eapply imrphenomxh_loop_derived; [| apply derived_empty | exact Hrun].
  reflexivity.
Qed.

Lemma get_imrphenomxh_modes_keys (p : params) (hlms : fd_modes)
    (t : trace LALDict) :
  run (get_imrphenomxh_modes X p) = (Ok hlms, t) ->
  exists approx mode_array,
    getitem p "approximant" = Ok approx /\
    imrphenomxh_mode_array p approx = Ok mode_array /\
    forall l m, is_Some (hlms !! (l, m)) <-> In (l, m) mode_array.
Proof.
  unfold run, get_imrphenomxh_modes, mbind, lift, mraise. intros Hrun.
  destruct (getitem p "approximant") as [approx |]; [| discriminate].
  destruct (py_startswith approx "IMRPhenomX") as [[|] |];
    simpl in Hrun; [| discriminate | discriminate].
  destruct (imrphenomxh_mode_array p approx) as [modes |] eqn:Em;
    [| discriminate].
  exists approx, modes. split; [reflexivity |]. split; [exact Em |].
  intros l m. rewrite (imrphenomxh_loop_keys _ _ _ _ _ _ Hrun (l, m)).
  rewrite lookup_empty. split; [| auto].
  intros [[x Hx] | H]; [discriminate Hx | exact H].
Qed.

(** C2. For every mode (l, m) in the dictionary the per-mode-call adapter
    returns, with h the frequency series the solver returned for that mode,
    the stored plus contribution is 0.5*h and the stored cross contribution
    is 0.5i*h when m <= 0 and -0.5i*h when m > 0; when the solver output for
    (2, 2) and (2, -2) is the same series, the two cross contributions
    differ exactly by a sign. The modes of the dictionary are exactly the
    requested ones. *)
Theorem imrphenomxh_strain_convention (p : params) (hlms : fd_modes)
    (t : trace LALDict) :
  run (get_imrphenomxh_modes X p) = (Ok hlms, t) ->
  (forall l m hp hc, hlms !! (l, m) = Some (hp, hc) ->
     exists h,
       imrphenomxh_solver_output X p l m = Ok h /\
       hp = smul half h /\
       hc = smul (if (0 <? m)%Z then Copp half_j else half_j) h) /\
  (forall h hp hc hp' hc',
     imrphenomxh_solver_output X p 2 2 = Ok h ->
     imrphenomxh_solver_output X p 2 (-2) = Ok h ->
     hlms !! (2, 2)%Z = Some (hp, hc) ->
     hlms !! (2, -2)%Z = Some (hp', hc') ->
     hc = smul minus_one hc') /\
  (exists approx mode_array,
     getitem p "approximant" = Ok approx /\
     imrphenomxh_mode_array p approx = Ok mode_array /\
     forall l m, is_Some (hlms !! (l, m)) <-> In (l, m) mode_array).
Proof.
  intros Hrun. split; [| split];
    [| | apply (get_imrphenomxh_modes_keys _ _ _ Hrun)];
    apply get_imrphenomxh_modes_derived in Hrun.
  - intros l m hp hc Hs. destruct (Hrun _ _ _ Hs) as (h & Hh & Heq).
    exists h. rewrite imrphenomxh_strains_closed in Heq.
    inversion Heq. auto.
  - intros h hp hc hp' hc' H1 H2 Hs Hs'.
    destruct (Hrun _ _ _ Hs) as (h1 & Hh1 & Heq1).
    destruct (Hrun _ _ _ Hs') as (h2 & Hh2 & Heq2).
    rewrite H1 in Hh1. rewrite H2 in Hh2.
    inversion Hh1; inversion Hh2; subst h1 h2.
    unfold imrphenomxh_strains in Heq1, Heq2. simpl in Heq1, Heq2.
    inversion Heq1; inversion Heq2. reflexivity.
Qed.

(** [get_glm] adds no check of its own to the harmonic evaluator of [lal]:
    it returns the real part of its value and fails exactly as it does. *)
Lemma get_glm_delegates (l m : Z) (theta : Qc) :
  get_glm X l m theta =
  match SpinWeightedSphericalHarmonic X theta 0%Qc (-2) l m with
  | Ok y => Ok (Cre y)
  | Err e => Err e
  end.
Proof. reflexivity. Qed.

End PerModeCall.

Lemma imrphenomxh_strain_convention_witness :
  exists hlms t,
    run (get_imrphenomxh_modes stub (sample_params "IMRPhenomXHM"))
    = (Ok hlms, t) /\
    is_Some (hlms !! (2, 2)%Z) /\ is_Some (hlms !! (2, -2)%Z) /\
    (forall l m hp hc, hlms !! (l, m) = Some (hp, hc) ->
       exists h,
         imrphenomxh_solver_output stub (sample_params "IMRPhenomXHM") l m
         = Ok h /\
         hp = smul half h /\
         hc = smul (if (0 <? m)%Z then Copp half_j else half_j) h) /\
    (forall h hp hc hp' hc',
       imrphenomxh_solver_output stub (sample_params "IMRPhenomXHM") 2 2
       = Ok h ->
       imrphenomxh_solver_output stub (sample_params "IMRPhenomXHM") 2 (-2)
       = Ok h ->
       hlms !! (2, 2)%Z = Some (hp, hc) ->
       hlms !! (2, -2)%Z = Some (hp', hc') ->
       hc = smul minus_one hc') /\
    (exists approx mode_array,
       getitem (sample_params "IMRPhenomXHM") "approximant" = Ok approx /\
       imrphenomxh_mode_array (sample_params "IMRPhenomXHM") approx
       = Ok mode_array /\
       forall l m, is_Some (hlms !! (l, m)) <-> In (l, m) mode_array).
Proof.
  destruct (run (get_imrphenomxh_modes stub (sample_params "IMRPhenomXHM")))
    as [[hlms | e] t] eqn:E.
  - exists hlms, t. split; [reflexivity |].
    assert (Hk : is_Some (hlms !! (2, 2)%Z) /\ is_Some (hlms !! (2, -2)%Z)).
    { assert (E' : fst (run (get_imrphenomxh_modes stub
                              (sample_params "IMRPhenomXHM"))) = Ok hlms)
        by (rewrite E; reflexivity).
      vm_compute in E'. inversion E' as [E'']. clear.
      split; vm_compute; eexists; reflexivity. }
    destruct Hk as [Hk1 Hk2]. split; [exact Hk1 |]. split; [exact Hk2 |].
    exact (imrphenomxh_strain_convention stub _ _ _ E).
  - exfalso. vm_compute in E. discriminate E.
Defined.

(** ** The packed multi-mode adapters *)

(** Case analysis on the first fallible step of a chain. *)
Ltac step_ok H :=
  match type of H with
  | rbind ?r _ = Ok _ =>
      let E := fresh "E" in
      destruct r eqn:E; simpl in H; [| discriminate H]
  end.

Ltac step_err :=
  match goal with
  | |- exists e, rbind ?r _ = Err e =>
      let E := fresh "E" in
      destruct r eqn:E; simpl; [| eexists; reflexivity]
  end.

Section Packed.

Context {Template LALDict : Type}.
Variable X : Externals Template LALDict.

(** What a run of the generic adapter amounts to: nothing is called unless
    the dictionary and every argument could be built, and then the solver
    is called once. *)
Lemma get_lalsimulation_modes_run (p : params) (t0 : trace LALDict) :
  let ell_max := match p !! "ell_max" with
                 | Some v => v
                 | None => VNum (Q2Qc (5 # 1))
                 end in
  get_lalsimulation_modes X p t0 =
  match _check_lal_pars X p with
  | Err e => (Err e, t0)
  | Ok laldict =>
      match lalsimulation_args X p ell_max laldict with
      | Err e => (Err e, t0)
      | Ok args =>
          (match lalsim_modes X SimInspiralChooseTDModes args with
           | Ok ret => Ok (walk_modes ret ∅)
           | Err e => Err e
           end, t0 ++ [CallSolver SimInspiralChooseTDModes args])
      end
  end.
Proof.
  unfold get_lalsimulation_modes, mbind, lift, call_modes, mbind, emit, lift,
    mret.
  destruct (_check_lal_pars X p) as [laldict |]; [| reflexivity].
  destruct (lalsimulation_args X p _ laldict) as [args |]; [| reflexivity].
  destruct (lalsim_modes X SimInspiralChooseTDModes args); reflexivity.
Qed.

Lemma get_nrsur_modes_run (p : params) (t0 : trace LALDict) :
  get_nrsur_modes X p t0 =
  match _check_lal_pars X p with
  | Err e => (Err e, t0)
  | Ok laldict =>
      match nrsur_args X p laldict with
      | Err e => (Err e, t0)
      | Ok args =>
          (match lalsim_modes X SimInspiralPrecessingNRSurModes args with
           | Ok ret => Ok (walk_modes ret ∅)
           | Err e => Err e
           end, t0 ++ [CallSolver SimInspiralPrecessingNRSurModes args])
      end
  end.
Proof.
  unfold get_nrsur_modes, mbind, lift, call_modes, mbind, emit, lift, mret.
  destruct (_check_lal_pars X p) as [laldict |]; [| reflexivity].
  destruct (nrsur_args X p laldict) as [args |]; [| reflexivity].
  destruct (lalsim_modes X SimInspiralPrecessingNRSurModes args); reflexivity.
Qed.

Lemma get_nrhybsur_modes_run (p : params) (t0 : trace LALDict) :
  get_nrhybsur_modes X p t0 =
  match _check_lal_pars X p with
  | Err e => (Err e, t0)
  | Ok laldict =>
      match nrhybsur_args X p laldict with
      | Err e => (Err e, t0)
      | Ok args =>
          (match lalsim_modes X SimIMRNRHybSur3dq8Modes args with
           | Ok ret => Ok (walk_modes ret ∅)
           | Err e => Err e
           end, t0 ++ [CallSolver SimIMRNRHybSur3dq8Modes args])
      end
  end.
Proof.
  unfold get_nrhybsur_modes, mbind, lift, call_modes, mbind, emit, lift, mret.
  destruct (_check_lal_pars X p) as [laldict |]; [| reflexivity].
  destruct (nrhybsur_args X p laldict) as [args |]; [| reflexivity].
  destruct (lalsim_modes X SimIMRNRHybSur3dq8Modes args); reflexivity.
Qed.

(** The fifteenth positional argument of the generic solver call is the
    maximum multipole order. *)
Lemma lalsimulation_args_ell_max (p : params) (ell_max : value)
    (laldict : LALDict) (args : list (arg LALDict)) :
  lalsimulation_args X p ell_max laldict = Ok args ->
  nth_error args 14 = Some (AVal ell_max).
Proof.
  unfold lalsimulation_args. intros H.
  repeat step_ok H. inversion H. reflexivity.
Qed.

(** C10. Whenever the generic packed multi-mode adapter calls the external
    solver, the call is to the generic solver and its maximum multipole
    order is 5 for a parameter set without the key ell_max, and the value
    stored under ell_max, unchanged, otherwise. *)
Theorem lalsimulation_modes_ell_max (p : params)
    (r : result td_modes) (t : trace LALDict)
    (fn : solver_fn) (args : list (arg LALDict)) :
  run (get_lalsimulation_modes X p) = (r, t) ->
  In (CallSolver fn args) t ->
  fn = SimInspiralChooseTDModes /\
  (p !! "ell_max" = None ->
   nth_error args 14 = Some (AVal (VNum (Q2Qc (5 # 1))))) /\
  (forall v, p !! "ell_max" = Some v -> nth_error args 14 = Some (AVal v)).
Proof.
  unfold run. rewrite get_lalsimulation_modes_run. cbv zeta.
  destruct (_check_lal_pars X p) as [laldict |];
    [| intros H; inversion H; subst; intros []].
  destruct (lalsimulation_args X p _ laldict) as [args' |] eqn:Eargs;
    [| intros H; inversion H; subst; intros []].
  intros H Hin. inversion H; subst. clear H.
  destruct Hin as [Hin | []]. inversion Hin; subst. clear Hin.
  apply lalsimulation_args_ell_max in Eargs.
  split; [reflexivity |]. split.
  - intros Hnone. rewrite Hnone in Eargs. exact Eargs.
  - intros v Hsome. rewrite Hsome in Eargs. exact Eargs.
Qed.

End Packed.

Lemma lalsimulation_modes_ell_max_witness :
  (exists args,
     snd (run (get_lalsimulation_modes stub (sample_params "TaylorT1")))
     = [CallSolver SimInspiralChooseTDModes args] /\
     nth_error args 14 = Some (AVal (VNum (Q2Qc (5 # 1))))) /\
  (exists args,
     snd (run (get_lalsimulation_modes stub
                 (<["ell_max" := VNum (Q2Qc (4 # 1))]>
                    (sample_params "TaylorT1"))))
     = [CallSolver SimInspiralChooseTDModes args] /\
     nth_error args 14 = Some (AVal (VNum (Q2Qc (4 # 1))))).
Proof.
  split.
  - destruct (run (get_lalsimulation_modes stub (sample_params "TaylorT1")))
      as [r t] eqn:E.
    assert (Ht : exists args, t = [CallSolver SimInspiralChooseTDModes args]).
    { assert (E' : snd (run (get_lalsimulation_modes stub
                               (sample_params "TaylorT1"))) = t)
        by (rewrite E; reflexivity).
      vm_compute in E'. rewrite <- E'. eexists. reflexivity. }
    destruct Ht as [args Ht]. exists args. split; [exact Ht |].
    refine (proj1 (proj2 (lalsimulation_modes_ell_max stub _ r t
                            SimInspiralChooseTDModes args E _)) _).
    + rewrite Ht. left. reflexivity.
    + reflexivity.
  - destruct (run (get_lalsimulation_modes stub
                     (<["ell_max" := VNum (Q2Qc (4 # 1))]>
                        (sample_params "TaylorT1"))))
      as [r t] eqn:E.
    assert (Ht : exists args, t = [CallSolver SimInspiralChooseTDModes args]).
    { assert (E' : snd (run (get_lalsimulation_modes stub
                               (<["ell_max" := VNum (Q2Qc (4 # 1))]>
                                  (sample_params "TaylorT1")))) = t)
        by (rewrite E; reflexivity).
      vm_compute in E'. rewrite <- E'. eexists. reflexivity. }
    destruct Ht as [args Ht]. exists args. split; [exact Ht |].
    refine (proj2 (proj2 (lalsimulation_modes_ell_max stub _ r t
                            SimInspiralChooseTDModes args E _)) _ _).
    + rewrite Ht. left. reflexivity.
    + reflexivity.
Defined.

(** ** What the adapters do with the approximant, and with solver failures *)

Section Adapters.

Context {Template LALDict : Type}.
Variable X : Externals Template LALDict.

Lemma getitem_lookup (p : params) (key : string) (v : value) :
  p !! key = Some v -> getitem p key = Ok v.
Proof. unfold getitem. now intros ->. Qed.

(** The table built by [get_lalsimulation_approximant] has exactly the names
    of its literal. *)
Lemma approximant_table_names (names : list string) (table : list (string * Z)) :
  sequence (map (fun name =>
                   (let* z := ls_getattr X (VStr name) in Ok (name, z))%result)
                names) = Ok table ->
  map fst table = names.
Proof.
  revert table. induction names as [| n names IH]; intros table H; simpl in H.
  - inversion H. reflexivity.
  - destruct (ls_attr X n) as [z |]; simpl in H; [| discriminate H].
    destruct (sequence _) as [tl |] eqn:E; simpl in H; [| discriminate H].
    inversion H. simpl. f_equal. apply IH. reflexivity.
Qed.

Lemma assoc_not_in {A} (key : string) (items : list (string * A)) :
  ~ In key (map fst items) -> assoc key items = None.
Proof.
  induction items as [| [k a] rest IH]; simpl; [reflexivity |].
  intros Hn. destruct (String.eqb_spec key k) as [-> | _].
  - exfalso. apply Hn. left. reflexivity.
  - apply IH. intros Hin. apply Hn. right. exact Hin.
Qed.

Lemma get_lalsimulation_approximant_unknown (name : string) :
  ~ In name lalsimulation_approximant_names ->
  exists e, get_lalsimulation_approximant X (VStr name) = Err e.
Proof.
  intros Hn. unfold get_lalsimulation_approximant.
  destruct (sequence _) as [table |] eqn:E; simpl; [| eexists; reflexivity].
  apply approximant_table_names in E.
  rewrite assoc_not_in by (rewrite E; exact Hn).
  eexists. reflexivity.
Qed.

Lemma lalsimulation_args_unknown (p : params) (name : string)
    (ell_max : value) (laldict : LALDict) :
  p !! "approximant" = Some (VStr name) ->
  ~ In name lalsimulation_approximant_names ->
  exists e, lalsimulation_args X p ell_max laldict = Err e.
Proof.
  intros Hp Hn. unfold lalsimulation_args.
  repeat step_err.
  rewrite (getitem_lookup _ _ _ Hp) in *.
  match goal with E : Ok _ = Ok _ |- _ => inversion E; subst end.
  destruct (get_lalsimulation_approximant_unknown name Hn) as [e He].
  match goal with E : get_lalsimulation_approximant X _ = Ok _ |- _ =>
    rewrite He in E; discriminate E end.
Qed.

Lemma nrsur_args_unknown (p : params) (name : string) (laldict : LALDict) :
  p !! "approximant" = Some (VStr name) ->
  ls_attr X name = None ->
  exists e, nrsur_args X p laldict = Err e.
Proof.
  intros Hp Hn. unfold nrsur_args.
  repeat step_err.
  rewrite (getitem_lookup _ _ _ Hp) in *.
  match goal with E : Ok _ = Ok _ |- _ => inversion E; subst end.
  match goal with E : ls_getattr X _ = Ok _ |- _ =>
    unfold ls_getattr in E; rewrite Hn in E; discriminate E end.
Qed.

(** C8, as the code has it. Called directly with an approximant outside its
    family, the per-mode-call adapter raises a ValueError when the name does
    not start with IMRPhenomX, the generic packed adapter fails when the
    name is not in its table of lalsimulation approximants, and the NRSur
    adapter fails when the name is not an attribute of lalsimulation; each
    does so before any solver call. *)
Theorem adapters_reject_unknown_approximant (p : params) (name : string) :
  p !! "approximant" = Some (VStr name) ->
  (startswith name "IMRPhenomX" = false ->
   run (get_imrphenomxh_modes X p)
   = (Err (ValueError "unsupported approximant"), [])) /\
  (~ In name lalsimulation_approximant_names ->
   exists e, run (get_lalsimulation_modes X p) = (Err e, [])) /\
  (ls_attr X name = None ->
   exists e, run (get_nrsur_modes X p) = (Err e, [])).
Proof.
  intros Hp. split; [| split].
  - intros Hs. unfold run, get_imrphenomxh_modes, mbind, lift, mraise.
    rewrite (getitem_lookup _ _ _ Hp). simpl. rewrite Hs. reflexivity.
  - intros Hn. unfold run. rewrite get_lalsimulation_modes_run. cbv zeta.
    destruct (_check_lal_pars X p) as [laldict |]; [| eexists; reflexivity].
    destruct (lalsimulation_args_unknown p name
                (match p !! "ell_max" with
                 | Some v => v
                 | None => VNum (Q2Qc (5 # 1))
                 end) laldict Hp Hn) as [e He].
    rewrite He. eexists. reflexivity.
  - intros Hn. unfold run. rewrite get_nrsur_modes_run.
    destruct (_check_lal_pars X p) as [laldict |]; [| eexists; reflexivity].
    destruct (nrsur_args_unknown p name laldict Hp Hn) as [e He].
    rewrite He. eexists. reflexivity.
Qed.

(** *** Solver failures *)

Lemma propagates_packed {A} (fn : solver_fn) (f : list sph_node -> A)
    (m : M LALDict A) (pre : result (list (arg LALDict))) :
  fn <> SimIMRPhenomXHMGenerateFDOneMode ->
  (forall t0, m t0 =
     match pre with
     | Err e => (Err e, t0)
     | Ok args =>
         (match lalsim_modes X fn args with
          | Ok ret => Ok (f ret)
          | Err e => Err e
          end, t0 ++ [CallSolver fn args])
     end) ->
  propagates_from X m.
Proof.
  intros Hfn Hm t0 r t Hrun. rewrite Hm in Hrun.
  destruct pre as [args | e0].
  - inversion Hrun; subst. eexists. split; [reflexivity |].
    intros fn' args' e [Hin | []] Hr. inversion Hin; subst.
    unfold solver_raises in Hr.
    destruct fn'; try congruence; rewrite Hr; reflexivity.
  - inversion Hrun; subst. exists []. split; [now rewrite app_nil_r |].
    intros fn' args' e [].
Qed.

Lemma get_lalsimulation_modes_propagates (p : params) :
  propagates_from X (get_lalsimulation_modes X p).
Proof.
  apply (propagates_packed SimInspiralChooseTDModes
           (fun ret => walk_modes ret ∅) _
           (let* laldict := _check_lal_pars X p in
            lalsimulation_args X p
              (match p !! "ell_max" with
               | Some v => v
               | None => VNum (Q2Qc (5 # 1))
               end) laldict)%result); [discriminate |].
  intros t0. rewrite get_lalsimulation_modes_run. cbv zeta.
  destruct (_check_lal_pars X p); reflexivity.
Qed.

Lemma get_nrsur_modes_propagates (p : params) :
  propagates_from X (get_nrsur_modes X p).
Proof.
  apply (propagates_packed SimInspiralPrecessingNRSurModes
           (fun ret => walk_modes ret ∅) _
           (let* laldict := _check_lal_pars X p in
            nrsur_args X p laldict)%result); [discriminate |].
  intros t0. rewrite get_nrsur_modes_run.
  destruct (_check_lal_pars X p); reflexivity.
Qed.

Lemma get_nrhybsur_modes_propagates (p : params) :
  propagates_from X (get_nrhybsur_modes X p).
Proof.
  apply (propagates_packed SimIMRNRHybSur3dq8Modes
           (fun ret => walk_modes ret ∅) _
           (let* laldict := _check_lal_pars X p in
            nrhybsur_args X p laldict)%result); [discriminate |].
  intros t0. rewrite get_nrhybsur_modes_run.
  destruct (_check_lal_pars X p); reflexivity.
Qed.

Lemma imrphenomxh_loop_propagates (modes : list mode) :
  forall (q : params) (hlms : fd_modes),
    propagates_from X (imrphenomxh_loop X q modes hlms).
Proof.
  induction modes as [| [l m] rest IH]; intros q hlms t0 r t Hrun.
  - simpl in Hrun. unfold mret in Hrun. inversion Hrun; subst.
    exists []. split; [now rewrite app_nil_r |]. intros fn args e [].
  - simpl in Hrun. unfold mbind, lift, call_one_mode, emit in Hrun.
    unfold mbind, lift in Hrun.
    destruct (_check_lal_pars X _) as [laldict | e0];
      [| inversion Hrun; subst; exists [];
         split; [now rewrite app_nil_r | intros fn args e []]].
    destruct (imrphenomxh_args X _ l m laldict) as [args | e0];
      [| inversion Hrun; subst; exists [];
         split; [now rewrite app_nil_r | intros fn args e []]].
    destruct (lalsim_one_mode X args) as [h | e0] eqn:Eh.
    + apply IH in Hrun. destruct Hrun as (t1 & -> & Hprop).
      exists (CallSolver SimIMRPhenomXHMGenerateFDOneMode args :: t1).
      split; [now rewrite <- app_assoc |].
      intros fn args' e [Hin | Hin] Hr.
      * inversion Hin; subst. unfold solver_raises in Hr. congruence.
      * apply (Hprop _ _ _ Hin Hr).
    + inversion Hrun; subst. eexists. split; [reflexivity |].
      intros fn args' e [Hin | []] Hr. inversion Hin; subst.
      unfold solver_raises in Hr. congruence.
Qed.

Lemma get_imrphenomxh_modes_propagates (p : params) :
  propagates_from X (get_imrphenomxh_modes X p).
Proof.
  intros t0 r t Hrun.
  unfold get_imrphenomxh_modes, mbind, lift, mraise in Hrun.
  assert (Hnone : forall e, (Err e : result fd_modes, t0) = (r, t) ->
            exists t1, t = t0 ++ t1 /\
              forall fn args e',
                In (CallSolver fn args) t1 ->
                solver_raises X fn args e' -> r = Err e').
  { intros e H. inversion H; subst. exists [].
    split; [now rewrite app_nil_r | intros fn args e' []]. }
  destruct (getitem p "approximant") as [approx |]; [| eapply Hnone; eauto].
  destruct (py_startswith approx "IMRPhenomX") as [[|] |]; simpl in Hrun;
    [| eapply Hnone; eauto | eapply Hnone; eauto].
  destruct (imrphenomxh_mode_array p approx) as [modes |];
    [| eapply Hnone; eauto].
  apply (imrphenomxh_loop_propagates _ _ _ _ _ _ Hrun).
Qed.

End Adapters.

Section Dispatch.

Context {Template LALDict : Type}.
Variable X : Externals Template LALDict.

Lemma propagates_raise {A} (e : exn) (t0 : trace LALDict)
    (r : result A) (t : trace LALDict) :
  (Err e, t0) = (r, t) ->
  exists t1, t = t0 ++ t1 /\
    forall fn args e',
      In (CallSolver fn args) t1 -> solver_raises X fn args e' -> r = Err e'.
Proof.
  intros H. inversion H; subst. exists [].
  split; [now rewrite app_nil_r | intros fn args e' []].
Qed.

Lemma dispatch_propagates {A}
    (registry : gmap string (params -> M LALDict A)) :
  (forall name adapter, registry !! name = Some adapter ->
     forall p, propagates_from X (adapter p)) ->
  forall apprx p, propagates_from X (dispatch X registry apprx p).
Proof.
  intros Hreg apprx p t0 r t Hrun. unfold dispatch, mraise in Hrun.
  destruct apprx as [q | name | ma |];
    try (eapply propagates_raise; exact Hrun).
  destruct (registry !! name) as [adapter |] eqn:Elook;
    [| eapply propagates_raise; exact Hrun].
  unfold mbind, emit in Hrun.
  apply (Hreg _ _ Elook) in Hrun. destruct Hrun as (t1 & -> & Hprop).
  exists (CallAdapter name :: t1). split; [now rewrite <- app_assoc |].
  intros fn args e [Hin | Hin] Hr; [discriminate Hin |].
  apply (Hprop _ _ _ Hin Hr).
Qed.

Lemma _mode_waveform_td_adapters (name : string)
    (adapter : params -> M LALDict td_modes) :
  _mode_waveform_td X !! name = Some adapter ->
  adapter = get_lalsimulation_modes X \/ adapter = get_nrsur_modes X \/
  adapter = get_nrhybsur_modes X.
Proof.
  unfold _mode_waveform_td. intros H. apply elem_of_list_to_map_2 in H.
  repeat (apply elem_of_cons in H; destruct H as [H | H];
          [inversion H; auto |]).
  apply elem_of_nil in H. destruct H.
Qed.

Lemma _mode_waveform_fd_adapters (name : string)
    (adapter : params -> M LALDict fd_modes) :
  _mode_waveform_fd X !! name = Some adapter ->
  adapter = get_imrphenomxh_modes X.
Proof.
  unfold _mode_waveform_fd. intros H. apply elem_of_list_to_map_2 in H.
  apply elem_of_cons in H. destruct H as [H | H]; [inversion H; auto |].
  apply elem_of_nil in H. destruct H.
Qed.

Lemma get_td_waveform_modes_propagates (template : option Template)
    (kwargs : params) :
  propagates_from X (get_td_waveform_modes X template kwargs).
Proof.
  intros t0 r t Hrun. unfold get_td_waveform_modes, mbind, lift in Hrun.
  destruct (check_args X _ _); [| eapply propagates_raise; exact Hrun].
  destruct (getitem _ _) as [apprx |];
    [| eapply propagates_raise; exact Hrun].
  revert Hrun. apply dispatch_propagates.
  intros name adapter Hlook p.
  destruct (_mode_waveform_td_adapters _ _ Hlook) as [-> | [-> | ->]].
  - apply get_lalsimulation_modes_propagates.
  - apply get_nrsur_modes_propagates.
  - apply get_nrhybsur_modes_propagates.
Qed.

Lemma get_fd_waveform_modes_propagates (template : option Template)
    (kwargs : params) :
  propagates_from X (get_fd_waveform_modes X template kwargs).
Proof.
  intros t0 r t Hrun. unfold get_fd_waveform_modes, mbind, lift in Hrun.
  destruct (check_args X _ _); [| eapply propagates_raise; exact Hrun].
  destruct (getitem _ _) as [apprx |];
    [| eapply propagates_raise; exact Hrun].
  revert Hrun. apply dispatch_propagates.
  intros name adapter Hlook p.
  rewrite (_mode_waveform_fd_adapters _ _ Hlook).
  apply get_imrphenomxh_modes_propagates.
Qed.

Lemma propagates_from_run {A} (m : M LALDict A) :
  propagates_from X m -> failure_unchanged X m.
Proof.
  intros Hm r t fn args e Hrun Hin Hr.
  destruct (Hm [] r t Hrun) as (t1 & -> & Hprop).
  apply (Hprop _ _ _ Hin Hr).
Qed.

(** C9, as the code has it. No call site wraps the external solver: when a
    solver call made by an adapter or by an entry point raises, the caller
    observes that very error, unchanged. *)
Theorem solver_failure_reaches_caller_unchanged
    (template : option Template) (p : params) :
  failure_unchanged X (get_lalsimulation_modes X p) /\
  failure_unchanged X (get_nrsur_modes X p) /\
  failure_unchanged X (get_nrhybsur_modes X p) /\
  failure_unchanged X (get_imrphenomxh_modes X p) /\
  failure_unchanged X (get_td_waveform_modes X template p) /\
  failure_unchanged X (get_fd_waveform_modes X template p).
Proof.
  repeat split; apply propagates_from_run.
  - apply get_lalsimulation_modes_propagates.
  - apply get_nrsur_modes_propagates.
  - apply get_nrhybsur_modes_propagates.
  - apply get_imrphenomxh_modes_propagates.
  - apply get_td_waveform_modes_propagates.
  - apply get_fd_waveform_modes_propagates.
Qed.

End Dispatch.

(** The hybrid-surrogate adapter never looks at the approximant: with a name
    outside every family it calls its solver and returns the modes. *)
Lemma nrhybsur_ignores_approximant :
  startswith "NotAModel" "NRHybSur3dq8" = false /\
  exists hlms args,
    run (get_nrhybsur_modes stub (sample_params "NotAModel"))
    = (Ok hlms, [CallSolver SimIMRNRHybSur3dq8Modes args]).
Proof.
  split; [reflexivity |].
  destruct (run (get_nrhybsur_modes stub (sample_params "NotAModel")))
    as [r t] eqn:E.
  vm_compute in E. inversion E. eexists. eexists. reflexivity.
Qed.

Lemma adapters_reject_unknown_approximant_witness :
  run (get_imrphenomxh_modes stub (sample_params "NotAModel"))
  = (Err (ValueError "unsupported approximant"), []) /\
  (exists e, run (get_lalsimulation_modes stub (sample_params "NotAModel"))
             = (Err e, [])) /\
  (exists e, run (get_nrsur_modes stub (sample_params "NotAModel"))
             = (Err e, [])).
Proof.
  assert (Hp : sample_params "NotAModel" !! "approximant"
               = Some (VStr "NotAModel")) by (vm_compute; reflexivity).
  destruct (adapters_reject_unknown_approximant stub _ _ Hp)
    as (H1 & H2 & H3).
  split; [| split].
  - apply H1. reflexivity.
  - apply H2. simpl. intuition discriminate.
  - apply H3. reflexivity.
Defined.

(** A native failure of the solver reaches the caller of the time-domain
    entry point as it is: it is not an ExternalSolverFailure. *)
Lemma native_failure_is_not_translated :
  exists args,
    run (get_td_waveform_modes failing_stub None (sample_params "TaylorT1"))
    = (Err native_failure,
       [CallAdapter "TaylorT1"; CallSolver SimInspiralChooseTDModes args]) /\
    exn_class native_failure <> "ExternalSolverFailure".
Proof.
  destruct (run (get_td_waveform_modes failing_stub None
                   (sample_params "TaylorT1"))) as [r t] eqn:E.
  vm_compute in E. inversion E. eexists. split; [reflexivity | discriminate].
Qed.

Lemma solver_failure_reaches_caller_unchanged_witness :
  fst (run (get_td_waveform_modes failing_stub None
              (sample_params "TaylorT1"))) = Err native_failure.
Proof.
  destruct (run (get_td_waveform_modes failing_stub None
                   (sample_params "TaylorT1"))) as [r t] eqn:E.
  assert (Ht : exists args,
             t = [CallAdapter "TaylorT1";
                  CallSolver SimInspiralChooseTDModes args]).
  { assert (E' : snd (run (get_td_waveform_modes failing_stub None
                             (sample_params "TaylorT1"))) = t)
      by (rewrite E; reflexivity).
    vm_compute in E'. rewrite <- E'. eexists. reflexivity. }
  destruct Ht as [args Ht]. simpl.
  refine (proj1 (proj2 (proj2 (proj2 (proj2
            (solver_failure_reaches_caller_unchanged failing_stub None
               (sample_params "TaylorT1"))))))
            r t SimInspiralChooseTDModes args native_failure E _ _).
  - rewrite Ht. right. left. reflexivity.
  - reflexivity.
Defined.

(** ** The entry points *)

Section EntryPoints.

Context {Template LALDict : Type}.
Variable X : Externals Template LALDict.

(** C4, as the code has it. For every parameter set that passes the
    required-parameter check and whose approximant is a name absent from the
    registry of the domain, the entry point of that domain raises the
    unsupported-approximant error naming the model, and neither an adapter
    nor an external solver is invoked. *)
Theorem unregistered_approximant_is_unsupported
    (template : option Template) (kwargs : params) (name : string) :
  props X template kwargs !! "approximant" = Some (VStr name) ->
  (check_args X (props X template kwargs) (fd_required X) = Ok tt ->
   _mode_waveform_fd X !! name = None ->
   run (get_fd_waveform_modes X template kwargs)
   = (Err (UnsupportedModel name), [])) /\
  (check_args X (props X template kwargs) (td_required X) = Ok tt ->
   _mode_waveform_td X !! name = None ->
   run (get_td_waveform_modes X template kwargs)
   = (Err (UnsupportedModel name), [])).
Proof.
  intros Hp. split; intros Hc Hreg.
  - unfold run, get_fd_waveform_modes, mbind, lift.
    rewrite Hc. unfold getitem. rewrite Hp. unfold dispatch.
    rewrite Hreg. reflexivity.
  - unfold run, get_td_waveform_modes, mbind, lift.
    rewrite Hc. unfold getitem. rewrite Hp. unfold dispatch.
    rewrite Hreg. reflexivity.
Qed.

Lemma missing_keys_spec (p : params) (required : list string) (k : string) :
  In k (missing_keys p required) <-> In k required /\ p !! k = None.
Proof.
  unfold missing_keys. rewrite filter_In. split.
  - intros [Hin Hb]. split; [exact Hin |].
    destruct (p !! k) eqn:E; [| reflexivity].
    rewrite bool_decide_eq_true_2 in Hb by eauto. discriminate Hb.
  - intros [Hin Hn]. split; [exact Hin |].
    rewrite bool_decide_eq_false_2; [reflexivity |].
    rewrite Hn. intros [v Hv]. discriminate Hv.
Qed.

Lemma check_args_spec_missing (p : params) (required : list string) :
  (exists k, In k required /\ p !! k = None) ->
  missing_keys p required <> [] /\
  check_args_spec p required = Err (MissingParameter (missing_keys p required)).
Proof.
  intros (k & Hin & Hn).
  assert (Hk : In k (missing_keys p required))
    by (apply missing_keys_spec; auto).
  unfold check_args_spec.
  destruct (missing_keys p required) as [| k' rest]; [destruct Hk |].
  split; [discriminate | reflexivity].
Qed.

(** C5. With the required-parameter checker of the spec, for every parameter
    set that misses at least one parameter required for a domain, the entry
    point of that domain raises a MissingParameter error that names exactly
    the missing keys, and no adapter or external solver has been invoked. *)
Theorem missing_parameter_before_any_solver_call
    (template : option Template) (kwargs : params) :
  check_args X = check_args_spec ->
  ((exists k, In k (fd_required X) /\
              props X template kwargs !! k = None) ->
   exists missing,
     run (get_fd_waveform_modes X template kwargs)
     = (Err (MissingParameter missing), []) /\
     missing <> [] /\
     forall k, In k missing <->
               In k (fd_required X) /\ props X template kwargs !! k = None) /\
  ((exists k, In k (td_required X) /\
              props X template kwargs !! k = None) ->
   exists missing,
     run (get_td_waveform_modes X template kwargs)
     = (Err (MissingParameter missing), []) /\
     missing <> [] /\
     forall k, In k missing <->
               In k (td_required X) /\ props X template kwargs !! k = None).
Proof.
  intros Hc. split; intros Hmiss;
    apply check_args_spec_missing in Hmiss; destruct Hmiss as [Hne Herr].
  - exists (missing_keys (props X template kwargs) (fd_required X)).
    split; [| split; [exact Hne | apply missing_keys_spec]].
    unfold run, get_fd_waveform_modes, mbind, lift.
    rewrite Hc, Herr. reflexivity.
  - exists (missing_keys (props X template kwargs) (td_required X)).
    split; [| split; [exact Hne | apply missing_keys_spec]].
    unfold run, get_td_waveform_modes, mbind, lift.
    rewrite Hc, Herr. reflexivity.
Qed.

End EntryPoints.

(** A parameter set that names an unregistered model and misses required
    parameters: both entry points raise MissingParameter, not the
    unsupported-approximant error. *)
Lemma unregistered_name_with_missing_parameters :
  _mode_waveform_fd stub !! "NotAModel" = None /\
  _mode_waveform_td stub !! "NotAModel" = None /\
  run (get_fd_waveform_modes stub None {[ "approximant" := VStr "NotAModel" ]})
  = (Err (MissingParameter
            ["delta_t"; "mass1"; "mass2"; "f_lower"; "f_ref"; "distance";
             "delta_f"; "coa_phase"]), []) /\
  run (get_td_waveform_modes stub None {[ "approximant" := VStr "NotAModel" ]})
  = (Err (MissingParameter
            ["delta_t"; "mass1"; "mass2"; "f_lower"; "f_ref"; "distance"]),
     []) /\
  MissingParameter
    ["delta_t"; "mass1"; "mass2"; "f_lower"; "f_ref"; "distance"]
  <> UnsupportedModel "NotAModel" /\
  MissingParameter
    ["delta_t"; "mass1"; "mass2"; "f_lower"; "f_ref"; "distance";
     "delta_f"; "coa_phase"]
  <> UnsupportedModel "NotAModel".
Proof.
  repeat split; try discriminate; vm_compute; reflexivity.
Qed.

Lemma unregistered_approximant_is_unsupported_witness :
  run (get_fd_waveform_modes stub None (sample_params "NotAModel"))
  = (Err (UnsupportedModel "NotAModel"), []) /\
  run (get_td_waveform_modes stub None (sample_params "NotAModel"))
  = (Err (UnsupportedModel "NotAModel"), []).
Proof.
  assert (Hp : props stub None (sample_params "NotAModel") !! "approximant"
               = Some (VStr "NotAModel")) by (vm_compute; reflexivity).
  destruct (unregistered_approximant_is_unsupported stub None _ _ Hp)
    as [Hfd Htd].
  split.
  - apply Hfd; vm_compute; reflexivity.
  - apply Htd; vm_compute; reflexivity.
Defined.

Lemma missing_parameter_before_any_solver_call_witness :
  (exists missing,
     run (get_fd_waveform_modes stub None
            (delete "mass1" (sample_params "IMRPhenomXHM")))
     = (Err (MissingParameter missing), []) /\
     missing <> [] /\
     forall k, In k missing <->
               In k (fd_required stub) /\
               props stub None (delete "mass1" (sample_params "IMRPhenomXHM"))
                 !! k = None) /\
  (exists missing,
     run (get_td_waveform_modes stub None
            (delete "mass1" (sample_params "TaylorT1")))
     = (Err (MissingParameter missing), []) /\
     missing <> [] /\
     forall k, In k missing <->
               In k (td_required stub) /\
               props stub None (delete "mass1" (sample_params "TaylorT1"))
                 !! k = None).
Proof.
  split.
  - apply (proj1 (missing_parameter_before_any_solver_call stub None
                    (delete "mass1" (sample_params "IMRPhenomXHM"))
                    eq_refl)).
    exists "mass1". split; [vm_compute; tauto | vm_compute; reflexivity].
  - apply (proj2 (missing_parameter_before_any_solver_call stub None
                    (delete "mass1" (sample_params "TaylorT1"))
                    eq_refl)).
    exists "mass1". split; [vm_compute; tauto | vm_compute; reflexivity].
Defined.
